(** * Sine wave superposition: the wave sampler of [plot_wave_superposition]

    A shallow embedding of the numerical part of
    [sine_wave_superposition.ipynb]: the grid [x = np.arange(0.05, 4.95, 0.001)],
    the per-frame callback [animate] with its five [set_data] calls, and the
    frame driver [FuncAnimation(fig, animate, frames=200, ...)].

    The notebook computes with NumPy [float64] values.  The embedding is
    written once over an arithmetic interface [Arith] and read at two
    instances:

    - [binary64]: IEEE 754 binary64 (the primitive floats), with the sine of
      the math library as a parameter, since NumPy leaves its bits to the
      platform;
    - [exact]: the real numbers with the analytic sine, the arithmetic that
      binary64 rounds. *)

From Stdlib Require Import String.
From Stdlib Require Import List ZArith Bool Lia.
From Stdlib Require Import Floats.
From Stdlib Require Import Reals Lra.
Import ListNotations.

Set Implicit Arguments.

(** ** The arithmetic interface *)

(** What the notebook asks of its numbers: the four operations, the
    conversion of a Python [int] operand, the ceiling [np.arange] takes of
    its length ([None] where NumPy raises, on NaN and infinities), [np.sin],
    [np.pi] and the five decimal literals of the source. *)
Class Arith (num : Type) : Type := {
  add : num -> num -> num;
  sub : num -> num -> num;
  mul : num -> num -> num;
  div : num -> num -> num;
  of_int : Z -> num;
  ceil : num -> option Z;
  np_sin : num -> num;
  np_pi : num;
  d0_01 : num;
  d0_17 : num;
  d0_05 : num;
  d4_95 : num;
  d0_001 : num
}.

Declare Scope num_scope.
Delimit Scope num_scope with num.
Infix "+" := add : num_scope.
Infix "-" := sub : num_scope.
Infix "*" := mul : num_scope.
Infix "/" := div : num_scope.

(** ** Matplotlib artists *)

(** A [Line2D] as far as the notebook touches it: the colour given to
    [ax.plot] and the data [set_data] replaces. *)
Record Line2D (num : Type) : Type := mkLine2D {
  color : string;
  xdata : list num;
  ydata : list num
}.

(** [ax.plot([], [], color=c)] *)
Definition plot_empty {num : Type} (c : string) : Line2D num :=
  {| color := c; xdata := []; ydata := [] |}.

(** [line.set_data(x, y)] *)
Definition set_data {num : Type} (x y : list num) (line : Line2D num) : Line2D num :=
  {| color := color line; xdata := x; ydata := y |}.

(** The five objects animated by [plot_wave_superposition]. *)
Record Artists (num : Type) : Type := mkArtists {
  w1 : Line2D num;   (* wave 1 *)
  w2 : Line2D num;   (* wave 2 *)
  sw1 : Line2D num;  (* superposed wave 1 *)
  sw2 : Line2D num;  (* superposed wave 2 *)
  rw : Line2D num    (* resultant wave *)
}.

Definition initial_artists {num : Type} : Artists num :=
  {| w1 := plot_empty "#7383c3"%string;
     w2 := plot_empty "#71768b"%string;
     sw1 := plot_empty "#7383c3"%string;
     sw2 := plot_empty "#71768b"%string;
     rw := plot_empty "#53587a"%string |}.

(** ** NumPy on one-dimensional arrays *)

Section Arrays.
Context {num : Type} {arith : Arith num}.
Local Open Scope num_scope.

(** [c * a] for a scalar [c] and an array [a] *)
Definition smul (c : num) (a : list num) : list num := map (fun v => c * v) a.

(** [a + c] for an array [a] and a scalar [c] *)
Definition sadd (a : list num) (c : num) : list num := map (fun v => v + c) a.

(** [np.sin(a)] *)
Definition vsin (a : list num) : list num := map np_sin a.

(** [a + b] for two arrays: elementwise on equal shapes, a one-element array
    is broadcast, any other pair of shapes raises [ValueError]. *)
Definition vadd (a b : list num) : option (list num) :=
  if Nat.eqb (length a) (length b)
  then Some (map (fun uv => fst uv + snd uv) (combine a b))
  else match a, b with
       | [u], _ => Some (map (fun v => u + v) b)
       | _, [v] => Some (map (fun u => u + v) a)
       | _, _ => None
       end.

(** [np.arange(start, stop, step)] on floats: [ceil((stop - start) / step)]
    elements; the first is [start], the second [start + step], and element
    [k >= 2] is [start + k * delta] with [delta = (start + step) - start]. *)
Definition np_arange (start stop step : num) : option (list num) :=
  match ceil ((stop - start) / step) with
  | None => None
  | Some len =>
      let delta := (start + step) - start in
      Some (map (fun k => match k with
                          | O => start
                          | S O => start + step
                          | _ => start + of_int (Z.of_nat k) * delta
                          end)
                (seq 0 (Z.to_nat len)))
  end.
End Arrays.

(** ** Axes and titles *)

(** What the figure set-up asks of its numbers beyond [Arith]: [abs], unary
    minus, [<], [==] and the test [np.isfinite] that Matplotlib makes of an
    axis limit. *)
Class Compare (num : Type) : Type := {
  absolute : num -> num;
  opposite : num -> num;
  less : num -> num -> bool;
  equal : num -> num -> bool;
  finite : num -> bool
}.

(** The limits and ticks [plt.setp] and [set_yticks] give to each of the four
    panels. *)
Record Axes (num : Type) : Type := mkAxes {
  xlim : num * num;
  ylim : num * num;
  yticks : list num
}.

(** What a panel title shows of a wave. *)
Record Title (num : Type) : Type := mkTitle {
  shown_frequency : num;
  shown_amplitude : num;
  direction : string
}.

Section Figure.
Context {num : Type} {arith : Arith num} {cmp : Compare num}.
Local Open Scope num_scope.

(** Python's [sum] of a list: the additions start from [0]. *)
Definition py_sum (l : list num) : num := fold_left add l (of_int 0).

(** [np.linspace(start, stop, n)] with its default [endpoint=True]: the
    indices [0 .. n-1] times the step, plus [start], and the last element
    set to [stop]; a zero step divides first and multiplies after. *)
Definition np_linspace (start stop : num) (n : nat) : list num :=
  let div := (n - 1)%nat in
  let start := start * of_int 1 in
  let stop := stop * of_int 1 in
  let delta := stop - start in
  let y := map (fun k => of_int (Z.of_nat k)) (seq 0 n) in
  let y := if Nat.ltb 0 div
           then let step := delta / of_int (Z.of_nat div) in
                if equal step (of_int 0)
                then map (fun v => (v / of_int (Z.of_nat div)) * delta) y
                else map (fun v => v * step) y
           else map (fun v => v * delta) y in
  let y := map (fun v => v + start) y in
  if Nat.ltb 1 n then removelast y ++ [stop] else y.

(** The axes of [plot_wave_superposition(wa1, _, wa2, _)]. *)
Definition set_axes (wa1 wa2 : num) : Axes num :=
  let wa := [absolute wa1; absolute wa2] in
  {| xlim := (of_int 0, of_int 5);
     ylim := (opposite (py_sum wa + of_int 2), py_sum wa + of_int 2);
     yticks := np_linspace (opposite (py_sum wa)) (py_sum wa) 7 |}.

(** The title of the panel of a wave of amplitude [wa] and frequency [wf]. *)
Definition wave_title (wa wf : num) : Title num :=
  {| shown_frequency := absolute wf;
     shown_amplitude := wa;
     direction := if less wf (of_int 0) then "longrightarrow"%string
                  else "longleftarrow"%string |}.
(** [plt.setp(ax, xlim=..., ylim=...)] raises [ValueError] on a limit that is
    NaN or infinite. *)
Definition limits_accepted (axes : Axes num) : bool :=
  finite (fst (xlim axes)) && finite (snd (xlim axes))
  && finite (fst (ylim axes)) && finite (snd (ylim axes)).
End Figure.

(** ** The notebook's function *)

Section PlotWaveSuperposition.
Context {num : Type} {arith : Arith num} {cmp : Compare num}.
Local Open Scope num_scope.

(** The arguments of [plot_wave_superposition]; [animate] closes over them
    and over the grid [x]. *)
Variables wa1 wf1 wa2 wf2 : num.
Variables ipw1 ipw2 : bool.

Section Frame.
Variable x : list num.

Definition animate (i : Z) (st : Artists num) : option (Artists num) :=
  let p := if ipw1 then (-1)%Z else 1%Z in
  let w1y := smul (wa1 * of_int p)
               (vsin (sadd (smul ((of_int 2 * np_pi) * (wf1 * d0_01)) x)
                           (d0_17 * of_int i))) in
  let p := if ipw2 then (-1)%Z else 1%Z in
  let w2y := smul (wa2 * of_int p)
               (vsin (sadd (smul ((of_int 2 * np_pi) * (wf2 * d0_01)) x)
                           (d0_17 * of_int i))) in
  match vadd w1y w2y with
  | None => None
  | Some w1y_plus_w2y =>
      Some {| w1 := set_data x w1y (w1 st);
              w2 := set_data x w2y (w2 st);
              sw1 := set_data x w1y (sw1 st);
              sw2 := set_data x w2y (sw2 st);
              rw := set_data x w1y_plus_w2y (rw st) |}
  end.

(** One pass of [FuncAnimation] over its frames: [animate] is called once per
    frame, in order, on the same artists; the result lists the artists as
    they stand after each frame. *)
Fixpoint play (frames : list Z) (st : Artists num) : option (list (Artists num)) :=
  match frames with
  | [] => Some []
  | i :: rest =>
      match animate i st with
      | None => None
      | Some st' =>
          match play rest st' with
          | None => None
          | Some shots => Some (st' :: shots)
          end
      end
  end.
End Frame.

(** [frames=200]: the frame indices are [range(200)]. *)
Definition frames : list Z := map Z.of_nat (seq 0 200).

(** The set-up of the axes comes first and raises when a limit is not
    finite; then the grid is built and the animation runs over it. *)
Definition plot_wave_superposition : option (list (Artists num)) :=
  if limits_accepted (set_axes wa1 wa2)
  then match np_arange d0_05 d4_95 d0_001 with
       | None => None
       | Some x => play x frames initial_artists
       end
  else None.
End PlotWaveSuperposition.

(** ** The sampler *)

Section Sampler.
Context {num : Type} {arith : Arith num}.
Local Open Scope num_scope.

(** The array of sines [animate] takes for a wave of frequency [wf], with the
    phase term [0.17 * i] as an argument. *)
Definition sines (wf : num) (x : list num) (phase : num) : list num :=
  vsin (sadd (smul ((of_int 2 * np_pi) * (wf * d0_01)) x) phase).

(** The expression [animate] evaluates for each wave. *)
Definition wave_y (wa wf : num) (ipw : bool) (x : list num) (phase : num) : list num :=
  let p := if ipw then (-1)%Z else 1%Z in
  smul (wa * of_int p) (sines wf x phase).

(** The phase term of frame [i]. *)
Definition frame_phase (i : Z) : num := d0_17 * of_int i.

(** The contract of the specification, in its words: the displacement at one
    grid point [t]. *)
Definition spec_sample_at (amplitude frequencyHz : num) (invertPolarity : bool)
    (phaseOffset t : num) : num :=
  let sign := if invertPolarity then of_int (-1) else of_int 1 in
  let angularFactor := (of_int 2 * np_pi) * (frequencyHz * d0_01) in
  amplitude * sign * np_sin (angularFactor * t + phaseOffset).
End Sampler.

(** ** The two arithmetics *)

(** A Python [int] as a binary64 value: the nearest double, ties to even.
    (Beyond the range of binary64 Python raises [OverflowError] and this is
    an infinity; the notebook converts [2], [1], [-1] and the frame
    indices.) *)
Definition float_of_int (z : Z) : float :=
  SF2Prim (binary_normalize prec emax z 0 false).

(** The least integer not below a binary64 value; NumPy raises on NaN and on
    the infinities. *)
Definition float_ceil (v : float) : option Z :=
  match Prim2SF v with
  | S754_zero _ => Some 0%Z
  | S754_finite s m e =>
      let n := if s then Zneg m else Zpos m in
      Some (match e with
            | Zneg q => (- ((- n) / Z.pow_pos 2 q))%Z
            | _ => (n * 2 ^ e)%Z
            end)
  | _ => None
  end.

(** Binary64 with the math library's sine [libm_sin]; the constants are the
    doubles Python reads the literals as. *)
Definition binary64 (libm_sin : float -> float) : Arith float :=
  {| add := PrimFloat.add;
     sub := PrimFloat.sub;
     mul := PrimFloat.mul;
     div := PrimFloat.div;
     of_int := float_of_int;
     ceil := float_ceil;
     np_sin := libm_sin;
     np_pi := 0x1.921fb54442d18p+1%float;
     d0_01 := 0x1.47ae147ae147bp-7%float;
     d0_17 := 0x1.5c28f5c28f5c3p-3%float;
     d0_05 := 0x1.999999999999ap-5%float;
     d4_95 := 0x1.3cccccccccccdp+2%float;
     d0_001 := 0x1.0624dd2f1a9fcp-10%float |}.

(** Exact real arithmetic with the analytic sine. *)
Definition exact : Arith R :=
  {| add := Rplus;
     sub := Rminus;
     mul := Rmult;
     div := Rdiv;
     of_int := IZR;
     ceil := fun r => Some (1 - up (- r))%Z;
     np_sin := sin;
     np_pi := PI;
     d0_01 := 0.01%R;
     d0_17 := 0.17%R;
     d0_05 := 0.05%R;
     d4_95 := 4.95%R;
     d0_001 := 0.001%R |}.

(** ** A reference sine *)

(** The greatest integer not above a binary64 value. *)
Definition float_floor (v : float) : option Z :=
  match Prim2SF v with
  | S754_zero _ => Some 0%Z
  | S754_finite s m e =>
      let n := if s then Zneg m else Zpos m in
      Some (match e with
            | Zneg q => (n / Z.pow_pos 2 q)%Z
            | _ => (n * 2 ^ e)%Z
            end)
  | _ => None
  end.

(** The sine on [[-pi/4, pi/4]] of [x + y], [y] the tail of [x]: the kernel
    polynomial of fdlibm. *)
Definition kernel_sin (x y : float) : float :=
  if (abs x <? 0x1p-27)%float then x
  else
    let z := (x * x)%float in
    let v := (z * x)%float in
    let r := (0x1.111111110f8a6p-7 + z * (-0x1.a01a019c161d5p-13 + z * (0x1.71de357b1fe7dp-19
               + z * (-0x1.ae5e68a2b9cebp-26 + z * 0x1.5d93a5acfd57cp-33))))%float in
    (x - ((z * (0.5 * y - v * r) - y) - v * -0x1.5555555555549p-3))%float.

(** The cosine on [[-pi/4, pi/4]] of [x + y]. *)
Definition kernel_cos (x y : float) : float :=
  if (abs x <? 0x1p-27)%float then 1%float
  else
    let z := (x * x)%float in
    let r := (z * (0x1.555555555554cp-5 + z * (-0x1.6c16c16c15177p-10 + z * (0x1.a01a019cb1590p-16
               + z * (-0x1.27e4f809c52adp-22 + z * (0x1.1ee9ebdb4b1c4p-29
               + z * -0x1.8fae9be8838d4p-37))))))%float in
    (1 - (0.5 * z - (z * r - x * y)))%float.

(** A sine on binary64, after fdlibm: the argument is reduced by multiples of
    [pi/2] in three Cody-Waite steps, then a kernel is chosen by the
    quadrant; the zeros go to themselves, NaN and the infinities to NaN.  It
    stands for the platform's sine where the embedding is run on concrete
    inputs; the theorems that hold for every sine take the sine as a
    parameter instead. *)
Definition ref_sin (x : float) : float :=
  if is_finite x then
    let t := abs x in
    match float_floor (t * 0x1.45f306dc9c883p-1 + 0.5)%float with
    | None => nan
    | Some n =>
        let fn := float_of_int n in
        let r := (t - fn * 0x1.921fb54400000p+0)%float in
        let t1 := r in
        let w := (fn * 0x1.0b4611a600000p-34)%float in
        let r := (t1 - w)%float in
        let w := (fn * 0x1.3198a2e037073p-69 - ((t1 - r) - w))%float in
        let t2 := r in
        let w := (fn * 0x1.3198a2e000000p-69)%float in
        let r := (t2 - w)%float in
        let w := (fn * 0x1.b839a252049c1p-104 - ((t2 - r) - w))%float in
        let y0 := (r - w)%float in
        let y1 := ((r - y0) - w)%float in
        let s := match (n mod 4)%Z with
                 | 0%Z => kernel_sin y0 y1
                 | 1%Z => kernel_cos y0 y1
                 | 2%Z => (- kernel_sin y0 y1)%float
                 | _ => (- kernel_cos y0 y1)%float
                 end in
        if get_sign x then (- s)%float else s
    end
  else nan.

(** IEEE equality, with NaN equal to itself: the two zeros are one number. *)
Definition same_number (u v : float) : bool :=
  (u =? v)%float || (is_nan u && is_nan v).

(** The colours of the five artists. *)
Definition palette {num : Type} (st : Artists num) : list string :=
  [color (w1 st); color (w2 st); color (sw1 st); color (sw2 st); color (rw st)].

Definition binary64_compare : Compare float :=
  {| absolute := PrimFloat.abs;
     opposite := PrimFloat.opp;
     less := PrimFloat.ltb;
     equal := PrimFloat.eqb;
     finite := PrimFloat.is_finite |}.

Definition exact_compare : Compare R :=
  {| absolute := Rabs;
     opposite := Ropp;
     less := fun a b => if Rlt_dec a b then true else false;
     equal := fun a b => if Req_dec_T a b then true else false;
     finite := fun _ => true |}.

(** * Properties *)

(** ** Arrays *)

Section ArrayFacts.
Context {num : Type} {arith : Arith num}.
Local Open Scope num_scope.

Lemma smul_length (c : num) (a : list num) : length (smul c a) = length a.
Proof. apply length_map. Qed.

Lemma sadd_length (a : list num) (c : num) : length (sadd a c) = length a.
Proof. apply length_map. Qed.

Lemma vsin_length (a : list num) : length (vsin a) = length a.
Proof. apply length_map. Qed.

Lemma vadd_same_shape (a b : list num) :
  length a = length b ->
  vadd a b = Some (map (fun uv => fst uv + snd uv) (combine a b)).
Proof.
  intros Hlen. unfold vadd. rewrite Hlen, Nat.eqb_refl. reflexivity.
Qed.

Lemma nth_error_zip {A B C : Type} (f : A * B -> C) (a : list A) :
  forall (b : list B) (k : nat),
    nth_error (map f (combine a b)) k =
    match nth_error a k, nth_error b k with
    | Some u, Some v => Some (f (u, v))
    | _, _ => None
    end.
Proof.
  induction a as [|u a IH]; intros [|v b] [|k]; simpl; try reflexivity.
  - now destruct (nth_error a k).
  - apply IH.
Qed.

Lemma wave_y_length (wa wf : num) (ipw : bool) (x : list num) (phase : num) :
  length (wave_y wa wf ipw x phase) = length x.
Proof.
  unfold wave_y, sines. now rewrite smul_length, vsin_length, sadd_length, smul_length.
Qed.

Lemma wave_y_pointwise (wa wf : num) (ipw : bool) (x : list num) (phase : num) :
  wave_y wa wf ipw x phase = map (spec_sample_at wa wf ipw phase) x.
Proof.
  unfold wave_y, sines, smul, vsin, sadd. rewrite !map_map.
  apply map_ext. intros t. unfold spec_sample_at. now destruct ipw.
Qed.
End ArrayFacts.

(** ** One frame, for every arithmetic *)

Section FrameFacts.
Context {num : Type} {arith : Arith num}.
Local Open Scope num_scope.

Variables wa1 wf1 wa2 wf2 : num.
Variables ipw1 ipw2 : bool.
Variable x : list num.

Local Abbreviation animate' := (animate wa1 wf1 wa2 wf2 ipw1 ipw2 x).
Local Abbreviation w1y i := (wave_y wa1 wf1 ipw1 x (frame_phase i)).
Local Abbreviation w2y i := (wave_y wa2 wf2 ipw2 x (frame_phase i)).

(** [animate] never raises: both arrays have the shape of the grid, and the
    artists it leaves are known in closed form. *)
Lemma animate_returns (i : Z) (st : Artists num) :
  animate' i st =
  Some {| w1 := set_data x (w1y i) (w1 st);
          w2 := set_data x (w2y i) (w2 st);
          sw1 := set_data x (w1y i) (sw1 st);
          sw2 := set_data x (w2y i) (sw2 st);
          rw := set_data x (map (fun uv => fst uv + snd uv) (combine (w1y i) (w2y i)))
                  (rw st) |}.
Proof.
  unfold animate.
  change (smul (wa1 * of_int (if ipw1 then (-1)%Z else 1%Z))
            (vsin (sadd (smul ((of_int 2 * np_pi) * (wf1 * d0_01)) x) (d0_17 * of_int i))))
    with (w1y i).
  change (smul (wa2 * of_int (if ipw2 then (-1)%Z else 1%Z))
            (vsin (sadd (smul ((of_int 2 * np_pi) * (wf2 * d0_01)) x) (d0_17 * of_int i))))
    with (w2y i).
  rewrite vadd_same_shape; [reflexivity|].
  now rewrite !wave_y_length.
Qed.

Lemma play_returns (fs : list Z) :
  forall st : Artists num,
  exists shots : list (Artists num),
    play wa1 wf1 wa2 wf2 ipw1 ipw2 x fs st = Some shots /\
    map (fun s => (ydata (w1 s), ydata (w2 s))) shots = map (fun i => (w1y i, w2y i)) fs /\
    Forall (fun s => exists i st0, animate' i st0 = Some s) shots.
Proof.
  induction fs as [|i fs IH]; intros st; simpl.
  - exists []. repeat split. constructor.
  - rewrite animate_returns.
    match goal with |- context [play _ _ _ _ _ _ _ fs ?s] => destruct (IH s) as (shots & Hplay & Hmap & Hall) end.
    rewrite Hplay. eexists. split; [reflexivity|]. split.
    + simpl. now rewrite Hmap.
    + constructor; [|exact Hall]. exists i, st. apply animate_returns.
Qed.

Lemma frames_nth (k : nat) :
  nth_error frames k = if Nat.ltb k 200 then Some (Z.of_nat k) else None.
Proof.
  unfold frames. rewrite nth_error_map.
  destruct (Nat.ltb_spec k 200) as [Hk|Hk].
  - rewrite nth_error_nth' with (d := O) by (now rewrite length_seq).
    rewrite seq_nth by exact Hk. reflexivity.
  - replace (nth_error (seq 0 200) k) with (@None nat); [reflexivity|].
    symmetry. apply nth_error_None. now rewrite length_seq.
Qed.

Lemma animate_shapes (i : Z) (st st' : Artists num) :
  animate' i st = Some st' ->
  xdata (w1 st') = x /\ xdata (w2 st') = x /\ xdata (rw st') = x /\
  length (ydata (w1 st')) = length x /\ length (ydata (w2 st')) = length x /\
  length (ydata (rw st')) = length x.
Proof.
  rewrite animate_returns. intros Hst. injection Hst as <-. simpl.
  rewrite length_map, length_combine, !wave_y_length, Nat.min_id. repeat split.
Qed.

Lemma play_length (fs : list Z) (st : Artists num) (shots : list (Artists num)) :
  play wa1 wf1 wa2 wf2 ipw1 ipw2 x fs st = Some shots -> length shots = length fs.
Proof.
  intros Hplay. destruct (play_returns fs st) as (shots' & Hplay' & Hmap & _).
  rewrite Hplay in Hplay'. injection Hplay' as <-.
  apply (f_equal (@length _)) in Hmap. now rewrite !length_map in Hmap.
Qed.

(** The resultant of frame [i] at grid point [t]. *)
Lemma animate_resultant_at (i : Z) (st st' : Artists num) (k : nat) (t : num) :
  animate' i st = Some st' ->
  nth_error x k = Some t ->
  nth_error (ydata (rw st')) k =
  Some (spec_sample_at wa1 wf1 ipw1 (frame_phase i) t
        + spec_sample_at wa2 wf2 ipw2 (frame_phase i) t).
Proof.
  rewrite animate_returns. intros Hst Ht. injection Hst as <-. simpl.
  rewrite (nth_error_zip (fun uv => fst uv + snd uv)), !wave_y_pointwise.
  rewrite !nth_error_map, Ht. reflexivity.
Qed.

(** C1. For every amplitude, frequency, polarity flag, phase offset and grid
    point [t], the sampled displacement is
    [A * sign * sin((2 * pi * (f * 0.01)) * t + phase)], with [sign = -1]
    when the flag is set and [1] otherwise; the two arrays [animate]
    computes in frame [i] are this formula at [phase = 0.17 * i]. *)
Theorem sampled_displacement_formula :
  (forall (A f : num) (p : bool) (G : list num) (phase : num),
      wave_y A f p G phase = map (spec_sample_at A f p phase) G) /\
  (forall (i : Z) (st : Artists num),
      exists st' : Artists num,
        animate' i st = Some st' /\
        ydata (w1 st') = map (spec_sample_at wa1 wf1 ipw1 (d0_17 * of_int i)) x /\
        ydata (w2 st') = map (spec_sample_at wa2 wf2 ipw2 (d0_17 * of_int i)) x).
Proof.
  split.
  - intros. apply wave_y_pointwise.
  - intros i st. rewrite animate_returns. eexists. split; [reflexivity|].
    simpl. now rewrite !wave_y_pointwise.
Qed.

(** C2. In every frame the resultant handed to the renderer is the
    elementwise sum of the two waves: at every index [k] of the grid,
    [resultant[k] = wave1[k] + wave2[k]], one addition of the arithmetic and
    nothing else, and past the grid all three are undefined. *)
Theorem resultant_is_pointwise_sum (i : Z) (st : Artists num) :
  exists st' : Artists num,
    animate' i st = Some st' /\
    length (ydata (rw st')) = length x /\
    forall k : nat,
      nth_error (ydata (rw st')) k =
      match nth_error (ydata (w1 st')) k, nth_error (ydata (w2 st')) k with
      | Some a, Some b => Some (a + b)
      | _, _ => None
      end.
Proof.
  rewrite animate_returns. eexists. split; [reflexivity|]. simpl. split.
  - rewrite length_map, length_combine.
    rewrite !wave_y_length. apply Nat.min_id.
  - intros k. apply (nth_error_zip (fun uv => fst uv + snd uv)).
Qed.

(** C3. The animation has the frames [0..199]; in frame [i] the phase term
    added to the sine argument is [0.17 * i], and the same term is added for
    wave 1 and for wave 2: the arrays of every shot are the source's
    expression with [+ 0.17 * i] written out. *)
Theorem frame_phase_shared :
  (forall k : nat, nth_error frames k = if Nat.ltb k 200 then Some (Z.of_nat k) else None) /\
  (forall st : Artists num,
      exists shots : list (Artists num),
        play wa1 wf1 wa2 wf2 ipw1 ipw2 x frames st = Some shots /\
        map (fun s => (ydata (w1 s), ydata (w2 s))) shots =
        map (fun i =>
               (map (fun t => wa1 * of_int (if ipw1 then (-1)%Z else 1%Z)
                              * np_sin ((of_int 2 * np_pi) * (wf1 * d0_01) * t
                                        + d0_17 * of_int i)) x,
                map (fun t => wa2 * of_int (if ipw2 then (-1)%Z else 1%Z)
                              * np_sin ((of_int 2 * np_pi) * (wf2 * d0_01) * t
                                        + d0_17 * of_int i)) x))
            frames).
Proof.
  split.
  - exact frames_nth.
  - intros st. destruct (play_returns frames st) as (shots & Hplay & Hmap & _).
    exists shots. split; [exact Hplay|]. rewrite Hmap.
    apply map_ext. intros i. rewrite !wave_y_pointwise.
    f_equal; apply map_ext; intros t; unfold spec_sample_at, frame_phase.
    + now destruct ipw1.
    + now destruct ipw2.
Qed.

(** C9. In every frame the two lines of the superposition panel receive the
    very arrays computed for wave 1 and wave 2, on the same grid. *)
Theorem superposition_panel_shares_waves (i : Z) (st : Artists num) :
  exists st' : Artists num,
    animate' i st = Some st' /\
    ydata (sw1 st') = ydata (w1 st') /\ ydata (sw2 st') = ydata (w2 st') /\
    xdata (sw1 st') = xdata (w1 st') /\ xdata (sw2 st') = xdata (w2 st') /\
    ydata (sw1 st') = wave_y wa1 wf1 ipw1 x (d0_17 * of_int i) /\
    ydata (sw2 st') = wave_y wa2 wf2 ipw2 x (d0_17 * of_int i).
Proof.
  rewrite animate_returns. eexists. split; [reflexivity|].
  simpl. repeat split.
Qed.
End FrameFacts.

(** ** Binary64: signs, zeros and the grid *)

Section Binary64Facts.
Local Open Scope float_scope.

(** Rounding does not look at the sign. *)
Lemma binary_round_aux_negb (b : bool) (m e : Z) (l : location) :
  binary_round_aux prec emax (negb b) m e l = SFopp (binary_round_aux prec emax b m e l).
Proof.
  unfold binary_round_aux.
  destruct (shr_fexp prec emax m e l) as [mrs' e'].
  destruct (shr_fexp prec emax _ e' loc_Exact) as [mrs'' e''].
  destruct (shr_m mrs''); simpl; try reflexivity.
  match goal with |- context [if ?c then _ else _] => destruct c end; reflexivity.
Qed.

Lemma SFmul_opp_l (u v : spec_float) : SF64mul (SFopp u) v = SFopp (SF64mul u v).
Proof.
  destruct u as [su|su| |su mu eu], v as [sv|sv| |sv mv ev];
    unfold SF64mul, SFmul, SFopp; try reflexivity;
    rewrite <- negb_xorb_l; try reflexivity.
  apply binary_round_aux_negb.
Qed.

Lemma SFmul_opp_r (u v : spec_float) : SF64mul u (SFopp v) = SFopp (SF64mul u v).
Proof.
  destruct u as [su|su| |su mu eu], v as [sv|sv| |sv mv ev];
    unfold SF64mul, SFmul, SFopp; try reflexivity;
    rewrite <- negb_xorb_r; try reflexivity.
  apply binary_round_aux_negb.
Qed.

Lemma float_opp_involutive (u : float) : - - u = u.
Proof.
  apply Prim2SF_inj. rewrite !opp_spec.
  destruct (Prim2SF u); simpl; now rewrite ?negb_involutive.
Qed.

Lemma float_mul_opp_l (u v : float) : (- u) * v = - (u * v).
Proof.
  apply Prim2SF_inj. rewrite opp_spec, !mul_spec, opp_spec. apply SFmul_opp_l.
Qed.

Lemma float_mul_opp_r (u v : float) : u * (- v) = - (u * v).
Proof.
  apply Prim2SF_inj. rewrite opp_spec, !mul_spec, opp_spec. apply SFmul_opp_r.
Qed.

Lemma shr_fexp_canonical (m : positive) (e : Z) :
  canonical_mantissa prec emax m e = true ->
  shr_fexp prec emax (Zpos m) e loc_Exact
  = ({| shr_m := Zpos m; shr_r := false; shr_s := false |}, e).
Proof.
  unfold canonical_mantissa, shr_fexp. intros Hc. apply Z.eqb_eq in Hc.
  simpl Zdigits2. rewrite Hc, Z.sub_diag. reflexivity.
Qed.

Lemma SFmul_comm (u v : spec_float) : SF64mul u v = SF64mul v u.
Proof.
  destruct u as [su|su| |su mu eu], v as [sv|sv| |sv mv ev];
    unfold SF64mul, SFmul; try reflexivity; rewrite (xorb_comm su sv); try reflexivity.
  now rewrite (Pos.mul_comm mu mv), (Z.add_comm eu ev).
Qed.

Lemma float_mul_comm (u v : float) : u * v = v * u.
Proof. apply Prim2SF_inj. rewrite !mul_spec. apply SFmul_comm. Qed.

(** Multiplying by one is exact: the product of the mantissas is shifted back
    by the 52 zeros it gained. *)
Lemma SFmul_1_l (u : spec_float) :
  valid_binary u = true -> SF64mul (Prim2SF 1) u = u.
Proof.
  change (Prim2SF 1) with (S754_finite false 4503599627370496 (-52)).
  destruct u as [s|s| |s m e]; try reflexivity.
  intros Hv. unfold valid_binary, SpecFloat.valid_binary, bounded in Hv.
  apply andb_true_iff in Hv. destruct Hv as [Hc He].
  unfold SF64mul, SFmul. simpl xorb. unfold binary_round_aux.
  assert (Hshift : shr_fexp prec emax (Zpos (4503599627370496 * m)) (-52 + e) loc_Exact
                   = ({| shr_m := Zpos m; shr_r := false; shr_s := false |}, e)).
  { unfold shr_fexp.
    assert (Hd : Zdigits2 (Zpos (4503599627370496 * m)) = (Zpos (digits2_pos m) + 52)%Z).
    { cbn [Zdigits2 Pos.mul digits2_pos]. rewrite !Pos2Z.inj_succ. lia. }
    rewrite Hd.
    unfold canonical_mantissa in Hc. apply Z.eqb_eq in Hc.
    replace (Z.pos (digits2_pos m) + 52 + (-52 + e))%Z
      with (Z.pos (digits2_pos m) + e)%Z by lia.
    rewrite Hc. replace (e - (-52 + e))%Z with 52%Z by lia.
    unfold shr. cbn [iter_pos shr_1 Pos.mul]. f_equal. lia. }
  rewrite Hshift. simpl round_nearest_even.
  rewrite (shr_fexp_canonical _ _ Hc). simpl shr_m. now rewrite He.
Qed.

Lemma float_mul_1_l (u : float) : 1 * u = u.
Proof.
  apply Prim2SF_inj. rewrite mul_spec. apply SFmul_1_l. apply Prim2SF_valid.
Qed.

Lemma SFeqb_refl (u : spec_float) : u <> S754_nan -> SFeqb u u = true.
Proof.
  intros Hu. unfold SFeqb. destruct u as [s|s| |s m e]; simpl.
  - reflexivity.
  - now destruct s.
  - now elim Hu.
  - rewrite Z.compare_refl, Pos.compare_cont_refl. now destruct s.
Qed.

Lemma is_nan_spec (u : float) : is_nan u = true <-> Prim2SF u = S754_nan.
Proof.
  unfold is_nan. rewrite FloatAxioms.eqb_spec. split.
  - intros Hn. destruct (Prim2SF u) eqn:E; try reflexivity;
      rewrite SFeqb_refl in Hn by discriminate; discriminate.
  - intros ->. reflexivity.
Qed.

Lemma is_zero_spec (u : float) : is_zero u = true <-> exists s, Prim2SF u = S754_zero s.
Proof.
  unfold is_zero. rewrite FloatAxioms.eqb_spec.
  change (Prim2SF zero) with (S754_zero false). split.
  - destruct (Prim2SF u) as [s|s| |s m e]; try discriminate.
    + intros _. now exists s.
    + now destruct s.
    + now destruct s.
  - intros [s ->]. reflexivity.
Qed.

Lemma is_finite_spec (u : float) :
  is_finite u = true ->
  (exists s, Prim2SF u = S754_zero s) \/ (exists s m e, Prim2SF u = S754_finite s m e).
Proof.
  unfold is_finite, is_infinity. intros Hf.
  apply negb_true_iff, orb_false_iff in Hf. destruct Hf as [Hnan Hinf].
  rewrite FloatAxioms.eqb_spec, abs_spec in Hinf.
  change (Prim2SF infinity) with (S754_infinity false) in Hinf.
  destruct (Prim2SF u) as [s|s| |s m e] eqn:E.
  - left. now exists s.
  - discriminate.
  - apply is_nan_spec in E. congruence.
  - right. now exists s, m, e.
Qed.

(** A zero times a finite number is a zero. *)
Lemma mul_zero_finite (z u : float) :
  is_zero z = true -> is_finite u = true -> is_zero (z * u) = true.
Proof.
  intros Hz Hu. apply is_zero_spec in Hz. destruct Hz as [sz Hz].
  apply is_zero_spec. rewrite mul_spec, Hz.
  destruct (is_finite_spec u Hu) as [[s ->]|(s & m & e & ->)]; simpl; eauto.
Qed.

Lemma same_number_spec (u v : float) :
  same_number u v =
  SFeqb (Prim2SF u) (Prim2SF v)
  || (negb (SFeqb (Prim2SF u) (Prim2SF u)) && negb (SFeqb (Prim2SF v) (Prim2SF v))).
Proof. unfold same_number, is_nan. now rewrite !FloatAxioms.eqb_spec. Qed.

Lemma SFsame_refl (u : spec_float) :
  SFeqb u u || (negb (SFeqb u u) && negb (SFeqb u u)) = true.
Proof. destruct (SFeqb u u); reflexivity. Qed.

(** Adding a zero leaves the number as it is, up to the sign of a zero. *)
Lemma add_zero_r (w z : float) : is_zero z = true -> same_number (w + z) w = true.
Proof.
  intros Hz. apply is_zero_spec in Hz. destruct Hz as [sz Hz].
  rewrite same_number_spec, add_spec, Hz.
  destruct (Prim2SF w) as [s|s| |s m e]; unfold SF64add, SFadd.
  - now destruct s, sz.
  - apply SFsame_refl.
  - reflexivity.
  - apply SFsame_refl.
Qed.

Lemma add_zero_l (w z : float) : is_zero z = true -> same_number (z + w) w = true.
Proof.
  intros Hz. apply is_zero_spec in Hz. destruct Hz as [sz Hz].
  rewrite same_number_spec, add_spec, Hz.
  destruct (Prim2SF w) as [s|s| |s m e]; unfold SF64add, SFadd.
  - now destruct s, sz.
  - apply SFsame_refl.
  - reflexivity.
  - apply SFsame_refl.
Qed.

Lemma float_neq (u v : float) : (u =? v) = false -> is_nan u = false -> u <> v.
Proof.
  intros Hne Hnan ->. unfold is_nan in Hnan. rewrite Hne in Hnan. discriminate.
Qed.

Variable libm_sin : float -> float.
Local Abbreviation b64 := (binary64 libm_sin).
Local Abbreviation wave64 := (wave_y (arith := binary64 libm_sin)).

Lemma binary64_sample_at (A f : float) (p : bool) (phase t : float) :
  spec_sample_at (arith := b64) A f p phase t =
  A * (if p then -1 else 1)
  * libm_sin (2 * 0x1.921fb54442d18p+1 * (f * 0x1.47ae147ae147bp-7) * t + phase).
Proof. unfold spec_sample_at. now destruct p. Qed.

(** Negating the amplitude negates every sample, bit for bit. *)
Lemma negated_amplitude (A f : float) (p : bool) (G : list float) (phase : float) :
  wave_y (arith := b64) (- A) f p G phase = map opp (wave_y (arith := b64) A f p G phase).
Proof.
  rewrite !wave_y_pointwise, map_map. apply map_ext. intros t.
  rewrite !binary64_sample_at. now rewrite !float_mul_opp_l.
Qed.

(** C4. Setting the polarity flag negates every output value exactly: for
    every amplitude, frequency, grid and phase offset, and whatever the
    platform's sine returns, the wave without the flag is the negation of
    the wave with it, at every index. *)
Theorem polarity_inversion_negates (A f : float) (G : list float) (phase : float) :
  wave_y (arith := b64) A f false G phase
  = map opp (wave_y (arith := b64) A f true G phase) /\
  forall k : nat,
    nth_error (wave_y (arith := b64) A f false G phase) k
    = option_map opp (nth_error (wave_y (arith := b64) A f true G phase) k).
Proof.
  assert (Heq : wave_y (arith := b64) A f false G phase
                = map opp (wave_y (arith := b64) A f true G phase)).
  { rewrite !wave_y_pointwise, map_map. apply map_ext. intros t.
    rewrite !binary64_sample_at.
    change (-1) with (- (1)).
    now rewrite float_mul_opp_r, float_mul_opp_l, float_opp_involutive. }
  split; [exact Heq|].
  intros k. rewrite Heq. apply nth_error_map.
Qed.

(** With the polarity flag off the wave is the amplitude times the sine,
    nothing more. *)
Lemma plain_wave (A f : float) (G : list float) (phase : float) :
  wave64 A f false G phase
  = map (fun t => A * libm_sin (2 * 0x1.921fb54442d18p+1 * (f * 0x1.47ae147ae147bp-7) * t + phase)) G.
Proof.
  rewrite wave_y_pointwise. apply map_ext. intros t.
  rewrite binary64_sample_at. now rewrite (float_mul_comm A 1), float_mul_1_l.
Qed.

(** Any sine that sends [0] to [0] and the double nearest [2 pi] to something
    else gives two different waves at the phases [0] and [0 + 2 * np.pi]. *)
Lemma phase_period_any_sine :
  libm_sin 0 = 0 ->
  libm_sin 0x1.921fb54442d18p+2 <> 0 ->
  wave64 1 0 false [0x1.999999999999ap-5] (0 + 2 * 0x1.921fb54442d18p+1)
  <> wave64 1 0 false [0x1.999999999999ap-5] 0.
Proof.
  intros Hzero Hnz. rewrite !plain_wave. simpl map.
  change (2 * 0x1.921fb54442d18p+1 * (0 * 0x1.47ae147ae147bp-7) * 0x1.999999999999ap-5
          + (0 + 2 * 0x1.921fb54442d18p+1)) with 0x1.921fb54442d18p+2.
  change (2 * 0x1.921fb54442d18p+1 * (0 * 0x1.47ae147ae147bp-7) * 0x1.999999999999ap-5 + 0)
    with 0.
  rewrite !float_mul_1_l, Hzero. intros Heq. apply Hnz. now injection Heq.
Qed.

Lemma zero_wave_is_zero (f : float) (p : bool) (G : list float) (phase : float) :
  Forall (fun s => is_finite s = true) (sines (arith := b64) f G phase) ->
  Forall (fun v => is_zero v = true) (wave_y (arith := b64) 0 f p G phase).
Proof.
  unfold wave_y, smul. intros Hfin. apply Forall_map.
  revert Hfin. apply Forall_impl. intros s Hs.
  apply mul_zero_finite; [now destruct p | exact Hs].
Qed.

Lemma zip_add_zero_l (zs ws : list float) :
  Forall (fun v => is_zero v = true) zs -> length zs = length ws ->
  Forall2 (fun r w => same_number r w = true)
          (map (fun uv => fst uv + snd uv) (combine zs ws)) ws.
Proof.
  intros Hz. revert ws. induction Hz as [|z zs Hz _ IH]; intros [|w ws] Hlen;
    try discriminate; simpl; constructor.
  - now apply add_zero_l.
  - apply IH. now injection Hlen.
Qed.

Lemma zip_add_zero_r (zs ws : list float) :
  Forall (fun v => is_zero v = true) zs -> length zs = length ws ->
  Forall2 (fun r w => same_number r w = true)
          (map (fun uv => fst uv + snd uv) (combine ws zs)) ws.
Proof.
  intros Hz. revert ws. induction Hz as [|z zs Hz _ IH]; intros [|w ws] Hlen;
    try discriminate; simpl; constructor.
  - now apply add_zero_r.
  - apply IH. now injection Hlen.
Qed.

(** C8. A wave of amplitude zero is zero at every index wherever the sine is
    finite, and superposing it with any other wave sampled on the same grid
    with the same phase offset, on either side of the sum, gives a resultant
    equal to the other wave at every index (equal as numbers: [==] with the
    two zeros identified). *)
Theorem zero_amplitude_identity (f : float) (p : bool) (G : list float) (phase : float) :
  Forall (fun s => is_finite s = true) (sines (arith := b64) f G phase) ->
  Forall (fun v => is_zero v = true) (wave64 0 f p G phase) /\
  forall (A' f' : float) (p' : bool),
  exists r r' : list float,
    vadd (arith := b64) (wave64 0 f p G phase) (wave64 A' f' p' G phase) = Some r /\
    Forall2 (fun u w => same_number u w = true) r (wave64 A' f' p' G phase) /\
    vadd (arith := b64) (wave64 A' f' p' G phase) (wave64 0 f p G phase) = Some r' /\
    Forall2 (fun u w => same_number u w = true) r' (wave64 A' f' p' G phase).
Proof.
  intros Hfin. pose proof (@zero_wave_is_zero f p G phase Hfin) as Hzero.
  split; [exact Hzero|]. intros A' f' p'.
  rewrite !vadd_same_shape by now rewrite !wave_y_length.
  do 2 eexists. split; [reflexivity|]. split; [|split; [reflexivity|]].
  - apply zip_add_zero_l; [exact Hzero | now rewrite !wave_y_length].
  - apply zip_add_zero_r; [exact Hzero | now rewrite !wave_y_length].
Qed.
End Binary64Facts.

Section Binary64Grid.
Local Open Scope float_scope.

Variable libm_sin : float -> float.
Local Abbreviation b64 := (binary64 libm_sin).
Local Abbreviation start := (d0_05 (Arith := binary64 libm_sin)).
Local Abbreviation stop := (d4_95 (Arith := binary64 libm_sin)).
Local Abbreviation step := (d0_001 (Arith := binary64 libm_sin)).

(** The grid [np.arange(0.05, 4.95, 0.001)] in binary64: 4900 points, the
    first [0.05], the second [0.05 + 0.001], all below [4.95], and each
    point above the one before it by [0.001] up to [2^-49]. *)
Lemma arange_grid :
  exists x : list float,
    np_arange (arith := b64) start stop step = Some x /\
    length x = 4900%nat /\
    nth_error x 0 = Some start /\
    nth_error x 1 = Some (start + step) /\
    forallb (fun v => v <? stop) x = true /\
    forallb (fun uv => abs (snd uv - fst uv - step) <? 0x1p-49) (combine x (tl x)) = true.
Proof.
  eexists. split; [vm_compute; reflexivity|].
  vm_compute. repeat split.
Qed.

(** The grid and the arrays of every frame in binary64: the call runs when
    the set-up accepts the limits and raises otherwise. *)
Lemma binary64_grid_frames :
  (stop - start) / step = 4900 /\
  float_floor ((stop - start) / step) = Some 4900%Z /\
  exists x : list float,
    np_arange (arith := b64) start stop step = Some x /\
    Some (Z.of_nat (length x)) = float_floor ((stop - start) / step) /\
    nth_error x 0 = Some start /\
    nth_error x 1 = Some (start + step) /\
    forallb (fun v => v <? stop) x = true /\
    forallb (fun uv => abs (snd uv - fst uv - step) <? 0x1p-49) (combine x (tl x)) = true /\
    forall (wa1 wf1 wa2 wf2 : float) (ipw1 ipw2 : bool),
    if limits_accepted (cmp := binary64_compare) (set_axes (arith := b64) (cmp := binary64_compare) wa1 wa2)
    then exists shots : list (Artists float),
           plot_wave_superposition (arith := b64) (cmp := binary64_compare)
             wa1 wf1 wa2 wf2 ipw1 ipw2 = Some shots /\
           length shots = 200%nat /\
           Forall (fun s => xdata (w1 s) = x /\
                            length (ydata (w1 s)) = 4900%nat /\
                            length (ydata (w2 s)) = 4900%nat /\
                            length (ydata (rw s)) = 4900%nat) shots
    else plot_wave_superposition (arith := b64) (cmp := binary64_compare)
           wa1 wf1 wa2 wf2 ipw1 ipw2 = None.
Proof.
  split; [reflexivity|]. split; [reflexivity|].
  destruct arange_grid as (x & Hx & Hlen & H0 & H1 & Hstop & Hinc).
  exists x. split; [exact Hx|]. split; [now rewrite Hlen|].
  repeat (split; [assumption|]).
  intros wa1 wf1 wa2 wf2 ipw1 ipw2. unfold plot_wave_superposition.
  destruct (limits_accepted (cmp := binary64_compare) (set_axes (arith := b64) (cmp := binary64_compare) wa1 wa2));
    [|reflexivity].
  rewrite Hx.
  destruct (play_returns (arith := b64) wa1 wf1 wa2 wf2 ipw1 ipw2 x frames initial_artists)
    as (shots & Hplay & _ & Hall).
  exists shots. split; [exact Hplay|]. split.
  - rewrite (play_length _ _ _ _ _ _ _ _ _ Hplay). unfold frames.
    now rewrite length_map, length_seq.
  - revert Hall. apply Forall_impl. intros s (i & st0 & Hs).
    apply animate_shapes in Hs. rewrite <- Hlen. tauto.
Qed.

(** The two calls of the notebook pass the set-up and run their 200 frames,
    whatever the sine. *)
Example notebook_calls_run :
  (exists shots : list (Artists float),
      plot_wave_superposition (arith := b64) (cmp := binary64_compare)
        10 140 10 (-140) false false = Some shots /\ length shots = 200%nat) /\
  (exists shots : list (Artists float),
      plot_wave_superposition (arith := b64) (cmp := binary64_compare)
        10 180 10 180 true false = Some shots /\ length shots = 200%nat).
Proof.
  destruct binary64_grid_frames as (_ & _ & x & _ & _ & _ & _ & _ & _ & Hrun).
  assert (Hok : limits_accepted (cmp := binary64_compare)
                  (set_axes (arith := b64) (cmp := binary64_compare) 10 10) = true)
    by (vm_compute; reflexivity).
  split.
  - pose proof (Hrun 10 140 10 (-140) false false) as H. rewrite Hok in H.
    destruct H as (shots & Hs & Hl & _). exists shots. split; assumption.
  - pose proof (Hrun 10 180 10 180 true false) as H. rewrite Hok in H.
    destruct H as (shots & Hs & Hl & _). exists shots. split; assumption.
Qed.

(** Two amplitudes of [1e308] are finite, but their sum is not: the set-up
    raises before the grid is built. *)
Example huge_amplitudes_rejected (wf1 wf2 : float) (ipw1 ipw2 : bool) :
  plot_wave_superposition (arith := b64) (cmp := binary64_compare)
    0x1.1ccf385ebc8ap+1023 wf1 0x1.1ccf385ebc8ap+1023 wf2 ipw1 ipw2 = None.
Proof.
  unfold plot_wave_superposition.
  assert (Hno : limits_accepted (cmp := binary64_compare)
                  (set_axes (arith := b64) (cmp := binary64_compare)
                     0x1.1ccf385ebc8ap+1023 0x1.1ccf385ebc8ap+1023) = false)
    by (vm_compute; reflexivity).
  now rewrite Hno.
Qed.
End Binary64Grid.

(** ** Binary64 with the reference sine: running the notebook *)

Section Binary64Runs.
Local Open Scope float_scope.
Local Abbreviation r64 := (binary64 ref_sin).
Local Abbreviation wave := (wave_y (arith := binary64 ref_sin)).

(** The scenario of the specification: amplitude 10, frequency 140, no phase,
    at [t = 0.05] the displacement is about 4.258. *)
Example scenario_first_grid_point :
  wave 10 140 false [0x1.999999999999ap-5] 0 = [0x1.107faddb77102p+2].
Proof. vm_compute. reflexivity. Qed.

(** Witness of C8: amplitude zero against the wave of the notebook's call,
    on the first two grid points in frame 1. *)
Lemma zero_amplitude_identity_witness :
  Forall (fun s => is_finite s = true)
    (sines (arith := r64) 140 [0x1.999999999999ap-5; 0x1.a1cac083126eap-5]
       0x1.5c28f5c28f5c3p-3) /\
  Forall (fun v => is_zero v = true)
    (wave 0 140 false [0x1.999999999999ap-5; 0x1.a1cac083126eap-5] 0x1.5c28f5c28f5c3p-3).
Proof.
  assert (Hfin : Forall (fun s => is_finite s = true)
            (sines (arith := r64) 140 [0x1.999999999999ap-5; 0x1.a1cac083126eap-5]
               0x1.5c28f5c28f5c3p-3)).
  { vm_compute. repeat constructor. }
  split; [exact Hfin|].
  exact (proj1 (@zero_amplitude_identity ref_sin 140 false
                  [0x1.999999999999ap-5; 0x1.a1cac083126eap-5] 0x1.5c28f5c28f5c3p-3 Hfin)).
Defined.

(** Counterexample to C7 as stated for the notebook's arithmetic: with
    amplitude 1, frequency 0 and phase 0 the sample is [sin 0 = 0]; with the
    phase [0 + 2 * np.pi] it is the sine of the double nearest [2 pi], which
    is not zero. *)
Lemma phase_period_rounded :
  nth_error (wave 1 0 false [0x1.999999999999ap-5] (0 + 2 * 0x1.921fb54442d18p+1)) 0
  = Some (-0x1.1a62633145c07p-52) /\
  nth_error (wave 1 0 false [0x1.999999999999ap-5] 0) 0 = Some 0 /\
  wave 1 0 false [0x1.999999999999ap-5] (0 + 2 * 0x1.921fb54442d18p+1)
  <> wave 1 0 false [0x1.999999999999ap-5] 0.
Proof.
  split; [vm_compute; reflexivity|]. split; [vm_compute; reflexivity|].
  intros Heq. apply (f_equal (fun l => hd 0 l)) in Heq. revert Heq.
  apply float_neq; vm_compute; reflexivity.
Qed.

(** Counterexample to C10 as stated for the notebook's arithmetic: with
    [c = 2^60] and [A = 2^-1074], [c * A] is exact and the scaled wave is
    about [2.4e-306] at [t = 0.05], while [A * sin] rounds to zero and stays
    zero when multiplied by [c]. *)
Lemma amplitude_scaling_rounded :
  nth_error (wave (0x1p60 * 0x1p-1074) 140 false [0x1.999999999999ap-5] 0) 0
  = Some 0x1.b3ff7c925819cp-1016 /\
  nth_error (map (PrimFloat.mul 0x1p60) (wave 0x1p-1074 140 false [0x1.999999999999ap-5] 0)) 0
  = Some 0 /\
  wave (0x1p60 * 0x1p-1074) 140 false [0x1.999999999999ap-5] 0
  <> map (PrimFloat.mul 0x1p60) (wave 0x1p-1074 140 false [0x1.999999999999ap-5] 0).
Proof.
  split; [vm_compute; reflexivity|]. split; [vm_compute; reflexivity|].
  intros Heq. apply (f_equal (fun l => hd 0 l)) in Heq. revert Heq.
  apply float_neq; vm_compute; reflexivity.
Qed.

(** Ordinary values round apart as well: [c = 3], [A = 0.1]. *)
Example amplitude_scaling_last_bit :
  wave (3 * 0x1.999999999999ap-4) 140 false [0x1.999999999999ap-5] 0
  = [0x1.05994abe34dc5p-3] /\
  map (PrimFloat.mul 3) (wave 0x1.999999999999ap-4 140 false [0x1.999999999999ap-5] 0)
  = [0x1.05994abe34dc4p-3].
Proof. split; vm_compute; reflexivity. Qed.

(** Frame 1 of [plot_wave_superposition(10, 140, 10, -140)]: the resultant at
    the first grid point. *)
Lemma frame1_resultant_binary64 :
  match np_arange (arith := r64) (d0_05 (Arith := r64)) (d4_95 (Arith := r64))
          (d0_001 (Arith := r64)) with
  | Some x =>
      match animate (arith := r64) 10 140 10 (-140) false false x 1 initial_artists with
      | Some st' => nth_error (ydata (rw st')) 0
      | None => None
      end
  | None => None
  end = Some 0x1.87e302ce48a8bp+1.
Proof. vm_compute. reflexivity. Qed.
End Binary64Runs.

(** ** Exact arithmetic: the trigonometry *)

Section ExactFacts.
Local Open Scope R_scope.
Local Existing Instance exact.

Lemma exact_sample_at (A f : R) (p : bool) (phase t : R) :
  spec_sample_at A f p phase t =
  A * (if p then -1 else 1) * sin (2 * PI * (f * 0.01) * t + phase).
Proof. unfold spec_sample_at. now destruct p. Qed.

Lemma exact_quotient : (4.95 - 0.05) / 0.001 = 4900.
Proof. lra. Qed.

Lemma exact_ceil_quotient : ceil (Arith := exact) ((4.95 - 0.05) / 0.001) = Some 4900%Z.
Proof.
  change (Some (1 - up (- ((4.95 - 0.05) / 0.001)))%Z = Some 4900%Z).
  rewrite exact_quotient.
  replace (up (Ropp 4900)) with (-4899)%Z by (apply tech_up; lra).
  reflexivity.
Qed.

(** In exact arithmetic too the grid has 4900 points and starts at [0.05]. *)
Lemma exact_grid :
  exists rest : list R,
    np_arange (arith := exact) 0.05 4.95 0.001 = Some (0.05 :: rest) /\
    length (0.05 :: rest) = 4900%nat.
Proof.
  unfold np_arange.
  change (ceil (div (sub 4.95 0.05) 0.001))
    with (ceil (Arith := exact) ((4.95 - 0.05) / 0.001)).
  rewrite exact_ceil_quotient.
  change (Z.to_nat 4900) with (S 4899).
  rewrite <- cons_seq, map_cons.
  eexists. split; [reflexivity|].
  simpl length. reflexivity.
Qed.

Lemma sample_periodic (A f : R) (p : bool) (G : list R) (phase : R) :
  wave_y A f p G (phase + 2 * PI) = wave_y A f p G phase.
Proof.
  rewrite !wave_y_pointwise. apply map_ext. intros t.
  rewrite !exact_sample_at. f_equal.
  rewrite <- Rplus_assoc, sin_plus, sin_2PI, cos_2PI. ring.
Qed.

Lemma sample_homogeneous (c A f : R) (p : bool) (G : list R) (phase : R) :
  wave_y (c * A) f p G phase = map (Rmult c) (wave_y A f p G phase).
Proof.
  rewrite !wave_y_pointwise, map_map. apply map_ext. intros t.
  rewrite !exact_sample_at. ring.
Qed.

(** Two waves of amplitude 10 and opposite frequencies add up to a standing
    wave. *)
Lemma opposite_frequencies_at (phase t : R) :
  spec_sample_at 10 140 false phase t + spec_sample_at 10 (-140) false phase t =
  20 * sin phase * cos (2 * PI * (140 * 0.01) * t).
Proof.
  rewrite !exact_sample_at.
  replace (2 * PI * (-140 * 0.01) * t + phase)
    with (- (2 * PI * (140 * 0.01) * t) + phase) by lra.
  rewrite !sin_plus, sin_neg, cos_neg. ring.
Qed.

Lemma standing_wave (G : list R) (phase : R) :
  map (fun uv => fst uv + snd uv)
      (combine (wave_y 10 140 false G phase) (wave_y 10 (-140) false G phase)) =
  map (fun t => 20 * sin phase * cos (2 * PI * (140 * 0.01) * t)) G.
Proof.
  rewrite !wave_y_pointwise.
  induction G as [|t G IH]; simpl; [reflexivity|].
  f_equal; [|exact IH]. apply opposite_frequencies_at.
Qed.

Lemma frame1_resultant_positive :
  0 < 20 * sin (0.17 * 1) * cos (2 * PI * (140 * 0.01) * 0.05).
Proof.
  pose proof PI2_1 as Hpi. pose proof PI_4 as Hpi4.
  assert (0 < sin (0.17 * 1)) by (apply sin_gt_0; lra).
  assert (0 < cos (2 * PI * (140 * 0.01) * 0.05)) by (apply cos_gt_0; lra).
  apply Rmult_lt_0_compat; [apply Rmult_lt_0_compat|]; lra.
Qed.

(** Frame 1 of [plot_wave_superposition(10, 140, 10, -140)] in exact
    arithmetic: the resultant at the first grid point is positive. *)
Lemma frame1_resultant_exact :
  exists (x : list R) (st' : Artists R) (v : R),
    np_arange (arith := exact) 0.05 4.95 0.001 = Some x /\
    animate (arith := exact) 10 140 10 (-140) false false x 1 initial_artists = Some st' /\
    nth_error (ydata (rw st')) 0 = Some v /\ 0 < v.
Proof.
  destruct exact_grid as (rest & Hx & _).
  exists (0.05 :: rest). eexists. eexists. split; [exact Hx|].
  split; [apply animate_returns|]. split.
  - eapply animate_resultant_at; [apply animate_returns | reflexivity].
  - change (0 < spec_sample_at 10 140 false (0.17 * 1) 0.05
                + spec_sample_at 10 (-140) false (0.17 * 1) 0.05).
    rewrite opposite_frequencies_at. apply frame1_resultant_positive.
Qed.

(** C5, as amended. For two waves of amplitude 10 with frequencies +140 and
    -140, sampled on the same grid with the same phase offset, the resultant
    at grid point [t] is [20 * sin(phase) * cos(2 * pi * 1.4 * t)] in exact
    arithmetic; it is zero at every grid point in frame 0, where the phase
    offset is 0. *)
Theorem opposite_frequencies_standing_wave :
  (forall (G : list R) (phase : R),
      vadd (wave_y 10 140 false G phase) (wave_y 10 (-140) false G phase) =
      Some (map (fun t => 20 * sin phase * cos (2 * PI * (140 * 0.01) * t)) G)) /\
  (forall (x : list R) (st : Artists R),
      exists st' : Artists R,
        animate 10 140 10 (-140) false false x 0 st = Some st' /\
        ydata (rw st') = map (fun _ => 0) x).
Proof.
  split.
  - intros G phase. rewrite vadd_same_shape by now rewrite !wave_y_length.
    f_equal. apply standing_wave.
  - intros x st. rewrite animate_returns. eexists. split; [reflexivity|].
    simpl. rewrite standing_wave. apply map_ext. intros t.
    change (frame_phase 0) with (0.17 * 0).
    replace (0.17 * 0) with 0 by lra. rewrite sin_0. ring.
Qed.

(** C7, as amended. In exact arithmetic the sampler is periodic in the phase
    offset with period [2 pi], at every index. *)
Theorem phase_period_exact (A f : R) (p : bool) (G : list R) (phase : R) :
  wave_y A f p G (phase + 2 * PI) = wave_y A f p G phase /\
  forall k : nat,
    nth_error (wave_y A f p G (phase + 2 * PI)) k = nth_error (wave_y A f p G phase) k.
Proof.
  split; [apply sample_periodic|]. intros k. now rewrite sample_periodic.
Qed.
End ExactFacts.

(** ** Across the two arithmetics *)

(** Counterexample to C5 as stated: in frame 1 of
    [plot_wave_superposition(10, 140, 10, -140)] the resultant at the first
    grid point is positive in exact arithmetic, and about 3.06 in binary64
    with the reference sine. *)
Lemma opposite_frequencies_not_zero :
  (exists (x : list R) (st' : Artists R) (v : R),
      np_arange (arith := exact) 0.05%R 4.95%R 0.001%R = Some x /\
      animate (arith := exact) 10%R 140%R 10%R (-140)%R false false x 1 initial_artists
      = Some st' /\
      nth_error (ydata (rw st')) 0 = Some v /\ (0 < v)%R) /\
  match np_arange (arith := binary64 ref_sin) (d0_05 (Arith := binary64 ref_sin))
          (d4_95 (Arith := binary64 ref_sin)) (d0_001 (Arith := binary64 ref_sin)) with
  | Some x =>
      match animate (arith := binary64 ref_sin) 10%float 140%float 10%float (-140)%float
              false false x 1 initial_artists with
      | Some st' => nth_error (ydata (rw st')) 0
      | None => None
      end
  | None => None
  end = Some 0x1.87e302ce48a8bp+1%float.
Proof.
  split; [exact frame1_resultant_exact | exact frame1_resultant_binary64].
Qed.

(** C10, as amended. In exact arithmetic the sampler is homogeneous in the
    amplitude: scaling the amplitude by [c] scales every sample by [c]; in
    binary64 a negated amplitude yields the exact negation of the wave,
    whatever the platform's sine returns. *)
Theorem amplitude_scaling :
  (forall (c A f : R) (p : bool) (G : list R) (phase : R),
      wave_y (arith := exact) (c * A)%R f p G phase
      = map (Rmult c) (wave_y (arith := exact) A f p G phase)) /\
  (forall (libm_sin : float -> float) (A f : float) (p : bool) (G : list float)
          (phase : float),
      wave_y (arith := binary64 libm_sin) (- A)%float f p G phase
      = map PrimFloat.opp (wave_y (arith := binary64 libm_sin) A f p G phase)).
Proof.
  split.
  - exact sample_homogeneous.
  - exact negated_amplitude.
Qed.

(** C6. The sample grid starts at [0.05], advances by [0.001] and stays
    below [4.95]; its length is [floor((4.95 - 0.05) / 0.001) = 4900], and
    every array handed to the renderer, for both waves and in each of the
    200 frames, has that length, for every call whose axis limits the
    set-up accepts (a call with limits that are not finite raises before
    the grid is built).  In binary64 the quotient is exactly 4900, as it is
    in exact arithmetic. *)
Theorem grid_length (libm_sin : float -> float) :
  (((4.95 - 0.05) / 0.001 = 4900)%R /\
   exists rest : list R,
     np_arange (arith := exact) 0.05%R 4.95%R 0.001%R = Some (0.05%R :: rest) /\
     length (0.05%R :: rest) = 4900%nat) /\
  ((0x1.3cccccccccccdp+2 - 0x1.999999999999ap-5) / 0x1.0624dd2f1a9fcp-10 = 4900)%float /\
  float_floor ((0x1.3cccccccccccdp+2 - 0x1.999999999999ap-5) / 0x1.0624dd2f1a9fcp-10)%float
  = Some 4900%Z /\
  exists x : list float,
    np_arange (arith := binary64 libm_sin) 0x1.999999999999ap-5%float
      0x1.3cccccccccccdp+2%float 0x1.0624dd2f1a9fcp-10%float = Some x /\
    Some (Z.of_nat (length x))
    = float_floor ((0x1.3cccccccccccdp+2 - 0x1.999999999999ap-5) / 0x1.0624dd2f1a9fcp-10)%float /\
    nth_error x 0 = Some 0x1.999999999999ap-5%float /\
    nth_error x 1 = Some (0x1.999999999999ap-5 + 0x1.0624dd2f1a9fcp-10)%float /\
    forallb (fun v => v <? 0x1.3cccccccccccdp+2)%float x = true /\
    forallb (fun uv => abs (snd uv - fst uv - 0x1.0624dd2f1a9fcp-10) <? 0x1p-49)%float
      (combine x (tl x)) = true /\
    forall (wa1 wf1 wa2 wf2 : float) (ipw1 ipw2 : bool),
    if limits_accepted (cmp := binary64_compare)
         (set_axes (arith := binary64 libm_sin) (cmp := binary64_compare) wa1 wa2)
    then exists shots : list (Artists float),
           plot_wave_superposition (arith := binary64 libm_sin) (cmp := binary64_compare)
             wa1 wf1 wa2 wf2 ipw1 ipw2 = Some shots /\
           length shots = 200%nat /\
           Forall (fun s => xdata (w1 s) = x /\
                            length (ydata (w1 s)) = 4900%nat /\
                            length (ydata (w2 s)) = 4900%nat /\
                            length (ydata (rw s)) = 4900%nat) shots
    else plot_wave_superposition (arith := binary64 libm_sin) (cmp := binary64_compare)
           wa1 wf1 wa2 wf2 ipw1 ipw2 = None.
Proof.
  split; [split; [exact exact_quotient | exact exact_grid]|].
  exact (binary64_grid_frames libm_sin).
Qed.

(** * Further properties *)

(** ** The artists across a pass *)

Section PassFacts.
Context {num : Type} {arith : Arith num}.
Local Open Scope num_scope.

Variables wa1 wf1 wa2 wf2 : num.
Variables ipw1 ipw2 : bool.
Variable x : list num.

Local Abbreviation animate' := (animate wa1 wf1 wa2 wf2 ipw1 ipw2 x).
Local Abbreviation play' := (play wa1 wf1 wa2 wf2 ipw1 ipw2 x).

Lemma animate_palette (i : Z) (st st' : Artists num) :
  animate' i st = Some st' -> palette st' = palette st.
Proof.
  rewrite animate_returns. intros Hst. injection Hst as <-. reflexivity.
Qed.

Lemma animate_same_palette (i : Z) (st1 st2 : Artists num) :
  palette st1 = palette st2 -> animate' i st1 = animate' i st2.
Proof.
  intros Hp. rewrite !animate_returns. unfold palette in Hp.
  injection Hp as H1 H2 H3 H4 H5. unfold set_data.
  now rewrite H1, H2, H3, H4, H5.
Qed.

Lemma play_same_palette (fs : list Z) (st1 st2 : Artists num) :
  palette st1 = palette st2 -> play' fs st1 = play' fs st2.
Proof.
  intros Hp. destruct fs as [|i fs]; [reflexivity|]. simpl.
  now rewrite (animate_same_palette i Hp).
Qed.

Lemma play_palette (fs : list Z) :
  forall (st : Artists num) (shots : list (Artists num)),
    play' fs st = Some shots ->
    Forall (fun s => palette s = palette st) shots /\ palette (last shots st) = palette st.
Proof.
  induction fs as [|i fs IH]; intros st shots; simpl.
  - intros Hs. injection Hs as <-. split; [constructor | reflexivity].
  - destruct (animate' i st) as [st'|] eqn:Hst; [|discriminate].
    destruct (play' fs st') as [rest|] eqn:Hrest; [|discriminate].
    intros Hs. injection Hs as <-.
    pose proof (animate_palette _ _ Hst) as Hp.
    destruct (IH _ _ Hrest) as [Hall Hlast]. split.
    + constructor; [exact Hp|]. revert Hall. apply Forall_impl. intros s ->. exact Hp.
    + destruct rest as [|s rest]; [exact Hp|].
      change (last (st' :: s :: rest) st) with (last (s :: rest) st).
      rewrite <- Hp, <- Hlast. f_equal.
      clear. revert s. induction rest as [|r rest IHr]; intros s; [reflexivity|].
      simpl in *. apply IHr.
Qed.

(** X5. A pass of the animation never changes a colour, and a second pass,
    started from the artists the first one leaves, shows the same shots
    again: no frame depends on the data an earlier frame left. *)
Theorem repeated_pass_shows_same_shots (fs : list Z) (st : Artists num) :
  exists shots : list (Artists num),
    play' fs st = Some shots /\
    play' fs (last shots st) = Some shots /\
    Forall (fun s => palette s = palette st) shots.
Proof.
  destruct (play_returns wa1 wf1 wa2 wf2 ipw1 ipw2 x fs st) as (shots & Hplay & _ & _).
  exists shots. destruct (play_palette _ _ Hplay) as [Hall Hlast].
  split; [exact Hplay|]. split; [|exact Hall].
  rewrite <- Hplay. now apply play_same_palette.
Qed.

(** X6. After every frame each of the five lines holds the grid as its
    abscissas and as many ordinates as abscissas. *)
Theorem lines_keep_matching_shapes (fs : list Z) (st : Artists num) :
  exists shots : list (Artists num),
    play' fs st = Some shots /\
    length shots = length fs /\
    Forall (fun s =>
              Forall (fun line => xdata line = x /\ length (ydata line) = length (xdata line))
                     [w1 s; w2 s; sw1 s; sw2 s; rw s]) shots.
Proof.
  destruct (play_returns wa1 wf1 wa2 wf2 ipw1 ipw2 x fs st) as (shots & Hplay & _ & Hall).
  exists shots. split; [exact Hplay|]. split; [exact (play_length _ _ _ _ _ _ _ _ _ Hplay)|].
  revert Hall. apply Forall_impl. intros s (i & st0 & Hs).
  rewrite animate_returns in Hs. injection Hs as <-. simpl.
  repeat constructor; simpl;
    now rewrite ?length_map, ?length_combine, ?wave_y_length, ?Nat.min_id.
Qed.
End PassFacts.

(** ** Binary64: composing the two waves *)

Section Binary64Waves.
Local Open Scope float_scope.

Lemma SFadd_comm (u v : spec_float) : SF64add u v = SF64add v u.
Proof.
  destruct u as [su|su| |su mu eu], v as [sv|sv| |sv mv ev];
    unfold SF64add, SFadd; try reflexivity; try (now destruct su, sv).
  now rewrite (Z.min_comm eu ev), Z.add_comm.
Qed.

Lemma float_add_comm (u v : float) : u + v = v + u.
Proof. apply Prim2SF_inj. rewrite !add_spec. apply SFadd_comm. Qed.

(** A finite number and its negation add up to [+0]. *)
Lemma float_add_opp_l (v : float) : is_finite v = true -> - v + v = 0.
Proof.
  intros Hv. apply Prim2SF_inj. rewrite add_spec, opp_spec.
  change (Prim2SF 0) with (S754_zero false).
  destruct (is_finite_spec v Hv) as [[s ->]|(s & m & e & ->)]; unfold SF64add, SFadd, SFopp.
  - now destruct s.
  - rewrite Z.min_id. unfold shl_align. rewrite Z.sub_diag. simpl fst.
    destruct s; simpl cond_Zopp; simpl negb; simpl cond_Zopp;
      rewrite ?Z.add_opp_diag_l, ?Z.add_opp_diag_r; reflexivity.
Qed.

Variable libm_sin : float -> float.
Local Abbreviation b64 := (binary64 libm_sin).
Local Abbreviation wave64 := (wave_y (arith := binary64 libm_sin)).

Lemma zip_add_comm (a b : list float) :
  map (fun uv => fst uv + snd uv) (combine a b) = map (fun uv => fst uv + snd uv) (combine b a).
Proof.
  revert b. induction a as [|u a IH]; intros [|v b]; simpl; try reflexivity.
  now rewrite IH, float_add_comm.
Qed.

(** X1. Superposition commutes: exchanging the two waves exchanges the two
    wave arrays and leaves the resultant as it is, bit for bit, in binary64
    and for any sine. *)
Theorem superposition_commutes (wa1 wf1 wa2 wf2 : float) (ipw1 ipw2 : bool)
    (x : list float) (i : Z) (st : Artists float) :
  exists st12 st21 : Artists float,
    animate (arith := b64) wa1 wf1 wa2 wf2 ipw1 ipw2 x i st = Some st12 /\
    animate (arith := b64) wa2 wf2 wa1 wf1 ipw2 ipw1 x i st = Some st21 /\
    ydata (rw st21) = ydata (rw st12) /\
    ydata (w1 st21) = ydata (w2 st12) /\ ydata (w2 st21) = ydata (w1 st12).
Proof.
  rewrite !animate_returns. do 2 eexists. do 2 (split; [reflexivity|]).
  simpl. split; [apply zip_add_comm | split; reflexivity].
Qed.

Lemma inverted_wave (A f : float) (G : list float) (phase : float) :
  wave64 A f true G phase = map opp (wave64 A f false G phase).
Proof.
  rewrite !wave_y_pointwise, map_map. apply map_ext. intros t.
  rewrite !binary64_sample_at. change (-1) with (- (1)).
  now rewrite float_mul_opp_r, float_mul_opp_l.
Qed.

(** X3. A negative amplitude is a polarity inversion: the wave of amplitude
    [-A] without the flag is the wave of amplitude [A] with it, and the
    other way round, bit for bit. *)
Theorem negative_amplitude_inverts (A f : float) (G : list float) (phase : float) :
  wave_y (arith := b64) (- A) f false G phase = wave_y (arith := b64) A f true G phase /\
  wave_y (arith := b64) (- A) f true G phase = wave_y (arith := b64) A f false G phase.
Proof.
  rewrite !negated_amplitude, !inverted_wave, map_map. split; [reflexivity|].
  rewrite <- (map_id (wave64 A f false G phase)) at 2.
  apply map_ext. intros v. apply float_opp_involutive.
Qed.

Lemma zip_cancel_l (w : list float) :
  Forall (fun v => is_finite v = true) w ->
  map (fun uv => fst uv + snd uv) (combine (map opp w) w) = map (fun _ => 0) w.
Proof.
  induction 1 as [|v w Hv _ IH]; simpl; [reflexivity|].
  now rewrite IH, float_add_opp_l.
Qed.

(** X2. Two waves of equal amplitude and frequency and opposite polarity
    cancel: wherever the wave is finite the resultant is [+0.0] at every
    index, whichever of the two carries the flag. *)
Theorem opposite_polarity_cancels (A f : float) (x : list float) (i : Z) (st : Artists float) :
  Forall (fun v => is_finite v = true) (wave64 A f false x (frame_phase (arith := b64) i)) ->
  exists st' st'' : Artists float,
    animate (arith := b64) A f A f true false x i st = Some st' /\
    ydata (rw st') = map (fun _ => 0) x /\
    animate (arith := b64) A f A f false true x i st = Some st'' /\
    ydata (rw st'') = map (fun _ => 0) x.
Proof.
  intros Hfin. rewrite !animate_returns. do 2 eexists.
  split; [reflexivity|]. split; [|split; [reflexivity|]]; simpl.
  - rewrite inverted_wave. etransitivity; [exact (zip_cancel_l Hfin)|].
    now rewrite wave_y_pointwise, map_map.
  - rewrite inverted_wave. etransitivity; [apply zip_add_comm|].
    etransitivity; [exact (zip_cancel_l Hfin)|].
    now rewrite wave_y_pointwise, map_map.
Qed.
End Binary64Waves.

(** ** Binary64: the titles *)

Section Binary64Titles.
Local Open Scope float_scope.
Variable libm_sin : float -> float.
Local Abbreviation title64 :=
  (wave_title (arith := binary64 libm_sin) (cmp := binary64_compare)).

Lemma float_abs_opp (w : float) : abs (- w) = abs w.
Proof.
  apply Prim2SF_inj. rewrite !abs_spec, opp_spec. now destruct (Prim2SF w).
Qed.

Lemma ltb_opp_zero (w : float) : (- w <? 0) = (0 <? w).
Proof.
  rewrite !ltb_spec, opp_spec. change (Prim2SF 0) with (S754_zero false).
  destruct (Prim2SF w) as [s|s| |s m e]; try reflexivity; now destruct s.
Qed.

Lemma sign_trichotomy (w : float) :
  (w <? 0) && (0 <? w) = false /\ (w <? 0) || (0 <? w) = negb (is_zero w || is_nan w).
Proof.
  unfold is_zero, is_nan. rewrite !ltb_spec, !FloatAxioms.eqb_spec.
  change (Prim2SF 0) with (S754_zero false). change (Prim2SF zero) with (S754_zero false).
  destruct (Prim2SF w) as [s|s| |s m e] eqn:E; try (split; reflexivity).
  - now destruct s.
  - rewrite SFeqb_refl by discriminate. now destruct s.
Qed.

(** X10. The titles of a wave and of its twin of opposite frequency show the
    same frequency; the twin's arrow points right exactly when the
    frequency is positive, so the two arrows agree exactly when the
    frequency is a zero or NaN, both pointing left. *)
Theorem twin_titles (A wf : float) :
  shown_frequency (wave_title (arith := binary64 libm_sin) (cmp := binary64_compare) A (- wf))
  = shown_frequency (wave_title (arith := binary64 libm_sin) (cmp := binary64_compare) A wf) /\
  direction (wave_title (arith := binary64 libm_sin) (cmp := binary64_compare) A (- wf))
  = (if 0 <? wf then "longrightarrow"%string else "longleftarrow"%string) /\
  String.eqb
    (direction (wave_title (arith := binary64 libm_sin) (cmp := binary64_compare) A (- wf)))
    (direction (wave_title (arith := binary64 libm_sin) (cmp := binary64_compare) A wf))
  = is_zero wf || is_nan wf.
Proof.
  split; [apply float_abs_opp|].
  unfold wave_title, direction.
  change (less (- wf) (of_int 0)) with (- wf <? 0).
  change (less wf (of_int 0)) with (wf <? 0).
  rewrite ltb_opp_zero. split; [reflexivity|].
  destruct (sign_trichotomy wf) as [Hexcl Hcover].
  destruct (wf <? 0), (0 <? wf); simpl in *; try discriminate;
    rewrite <- (negb_involutive (is_zero wf || is_nan wf)), <- Hcover; reflexivity.
Qed.
End Binary64Titles.

(** ** Exact arithmetic: the figure *)

Section ExactFigure.
Local Open Scope R_scope.
Local Existing Instance exact.
Local Existing Instance exact_compare.

Lemma exact_sample_bound (A f : R) (p : bool) (phase t : R) :
  Rabs (spec_sample_at A f p phase t) <= Rabs A.
Proof.
  rewrite exact_sample_at, !Rabs_mult.
  assert (Hp : Rabs (if p then -1 else 1) = 1).
  { destruct p; [rewrite Rabs_left | rewrite Rabs_right]; lra. }
  rewrite Hp, Rmult_1_r.
  pose proof (SIN_bound (2 * PI * (f * 0.01) * t + phase)) as Hs.
  assert (Rabs (sin (2 * PI * (f * 0.01) * t + phase)) <= 1) by (apply Rabs_le; lra).
  pose proof (Rabs_pos A). nra.
Qed.

Lemma Rabs_le_inv (y b : R) : Rabs y <= b -> - b <= y <= b.
Proof. unfold Rabs. destruct (Rcase_abs y); lra. Qed.

Lemma exact_ylim (wa1 wa2 : R) :
  ylim (set_axes wa1 wa2) = (- (Rabs wa1 + Rabs wa2 + 2), Rabs wa1 + Rabs wa2 + 2).
Proof.
  unfold set_axes, ylim, py_sum. simpl. f_equal; lra.
Qed.

Lemma exact_grid_points :
  exists x : list R,
    np_arange (arith := exact) 0.05 4.95 0.001 = Some x /\
    Forall (fun t => 0.05 <= t < 4.95) x.
Proof.
  unfold np_arange.
  change (ceil (div (sub 4.95 0.05) 0.001))
    with (ceil (Arith := exact) ((4.95 - 0.05) / 0.001)).
  rewrite exact_ceil_quotient. eexists. split; [reflexivity|].
  apply Forall_forall. intros t Ht. apply in_map_iff in Ht.
  destruct Ht as (k & <- & Hk). apply in_seq in Hk.
  change (Z.to_nat 4900) with 4900%nat in Hk.
  destruct k as [|[|k]]; [lra | simpl; lra |].
  assert (Hlo : 2 <= IZR (Z.of_nat (S (S k)))) by (apply IZR_le; lia).
  assert (Hhi : IZR (Z.of_nat (S (S k))) <= 4899) by (apply IZR_le; lia).
  change (0.05 <= 0.05 + IZR (Z.of_nat (S (S k))) * (0.05 + 0.001 - 0.05) < 4.95).
  lra.
Qed.

Lemma zip_sum_bound (a b : list R) (ba bb : R) :
  Forall (fun v => Rabs v <= ba) a -> Forall (fun v => Rabs v <= bb) b ->
  Forall (fun v => Rabs v <= ba + bb) (map (fun uv => fst uv + snd uv) (combine a b)).
Proof.
  intros Ha. revert b. induction Ha as [|u a Hu _ IH]; intros b Hb; [constructor|].
  destruct Hb as [|v b Hv Hb]; [constructor|]. simpl. constructor.
  - pose proof (Rabs_triang u v). lra.
  - now apply IH.
Qed.

Lemma wave_bound (A f : R) (p : bool) (G : list R) (phase : R) :
  Forall (fun v => Rabs v <= Rabs A) (wave_y A f p G phase).
Proof.
  rewrite wave_y_pointwise. apply Forall_map, Forall_forall. intros t _.
  apply exact_sample_bound.
Qed.

(** X7. In exact arithmetic no curve leaves its panel: in every frame every
    point of each of the five lines lies strictly inside the x-limits
    [(0, 5)] and the y-limits [(-(|wa1| + |wa2| + 2), |wa1| + |wa2| + 2)]. *)
Theorem curves_stay_inside_axes (wa1 wf1 wa2 wf2 : R) (ipw1 ipw2 : bool) :
  exists shots : list (Artists R),
    plot_wave_superposition wa1 wf1 wa2 wf2 ipw1 ipw2 = Some shots /\
    Forall (fun s =>
      Forall (fun line =>
        Forall (fun t => fst (xlim (set_axes wa1 wa2)) < t < snd (xlim (set_axes wa1 wa2)))
               (xdata line) /\
        Forall (fun y => fst (ylim (set_axes wa1 wa2)) < y < snd (ylim (set_axes wa1 wa2)))
               (ydata line))
        [w1 s; w2 s; sw1 s; sw2 s; rw s]) shots.
Proof.
  destruct exact_grid_points as (x & Hx & Hgrid).
  unfold plot_wave_superposition.
  change (limits_accepted (set_axes wa1 wa2)) with true.
  change (np_arange d0_05 d4_95 d0_001) with (np_arange (arith := exact) 0.05 4.95 0.001).
  rewrite Hx.
  destruct (play_returns wa1 wf1 wa2 wf2 ipw1 ipw2 x frames initial_artists)
    as (shots & Hplay & _ & Hall).
  exists shots. split; [exact Hplay|].
  revert Hall. apply Forall_impl. intros s (i & st0 & Hs).
  rewrite animate_returns in Hs. injection Hs as <-.
  rewrite exact_ylim. unfold set_axes, xlim. simpl fst. simpl snd.
  assert (Hin : Forall (fun t => IZR 0 < t < IZR 5) x).
  { revert Hgrid. apply Forall_impl. intros t Ht. lra. }
  assert (Hw : forall A f p ph A',
             Forall (fun y => - (Rabs A + Rabs A' + 2) < y < Rabs A + Rabs A' + 2)
                    (wave_y A f p x ph) /\
             Forall (fun y => - (Rabs A' + Rabs A + 2) < y < Rabs A' + Rabs A + 2)
                    (wave_y A f p x ph)).
  { intros A f p ph A'. pose proof (wave_bound A f p x ph) as Hb. pose proof (Rabs_pos A').
    split; revert Hb; apply Forall_impl; intros y Hy;
      apply Rabs_le_inv in Hy; lra. }
  assert (Hr : Forall (fun y => - (Rabs wa1 + Rabs wa2 + 2) < y < Rabs wa1 + Rabs wa2 + 2)
                 (map (fun uv => fst uv + snd uv)
                    (combine (wave_y wa1 wf1 ipw1 x (frame_phase i))
                             (wave_y wa2 wf2 ipw2 x (frame_phase i))))).
  { pose proof (zip_sum_bound (wave_bound wa1 wf1 ipw1 x (frame_phase i))
                              (wave_bound wa2 wf2 ipw2 x (frame_phase i))) as Hb.
    revert Hb. apply Forall_impl. intros y Hy. apply Rabs_le_inv in Hy. lra. }
  repeat apply Forall_cons; try apply Forall_nil;
    cbn [xdata ydata set_data w1 w2 sw1 sw2 rw]; (split; [exact Hin|]).
  - apply (proj1 (Hw wa1 wf1 ipw1 _ wa2)).
  - apply (proj2 (Hw wa2 wf2 ipw2 _ wa1)).
  - apply (proj1 (Hw wa1 wf1 ipw1 _ wa2)).
  - apply (proj2 (Hw wa2 wf2 ipw2 _ wa1)).
  - exact Hr.
Qed.

(** X8. In exact arithmetic the seven y-ticks are [k * S / 3] for
    [k = -3 .. 3] with [S = |wa1| + |wa2|]: they run from [-S] to [S]
    through [0], coincide when both amplitudes are zero, and lie strictly
    inside the y-limits. *)
Theorem yticks_span_amplitudes (wa1 wa2 : R) :
  yticks (set_axes wa1 wa2)
  = map (fun k => IZR k * ((Rabs wa1 + Rabs wa2) / 3)) [-3; -2; -1; 0; 1; 2; 3]%Z /\
  Forall (fun y => fst (ylim (set_axes wa1 wa2)) < y < snd (ylim (set_axes wa1 wa2)))
         (yticks (set_axes wa1 wa2)).
Proof.
  assert (Hticks : yticks (set_axes wa1 wa2)
    = map (fun k => IZR k * ((Rabs wa1 + Rabs wa2) / 3)) [-3; -2; -1; 0; 1; 2; 3]%Z).
  { unfold set_axes, yticks, np_linspace, py_sum. simpl.
    destruct (Req_dec_T _ _) as [Hz|Hnz]; simpl.
    - assert (HS : Rabs wa1 + Rabs wa2 = 0) by lra.
      repeat (f_equal; [nra|]). f_equal. nra.
    - repeat (f_equal; [lra|]). f_equal. lra. }
  split; [exact Hticks|].
  rewrite Hticks, exact_ylim. simpl fst. simpl snd.
  pose proof (Rabs_pos wa1). pose proof (Rabs_pos wa2).
  repeat constructor; simpl; lra.
Qed.
End ExactFigure.

(** ** Exact arithmetic: motion *)

Section ExactMotion.
Local Open Scope R_scope.
Local Existing Instance exact.
Local Existing Instance exact_compare.

(** X4. Inverting the polarity shifts the phase by 180 degrees: in exact
    arithmetic the wave with the flag is the wave without it at the phase
    offset plus [pi]. *)
Theorem polarity_is_half_turn (A f : R) (G : list R) (phase : R) :
  wave_y A f true G phase = wave_y A f false G (phase + PI).
Proof.
  rewrite !wave_y_pointwise. apply map_ext. intros t.
  rewrite !exact_sample_at, <- Rplus_assoc, neg_sin. ring.
Qed.

(** X11. The grid is in units of [10^-2] s: in exact arithmetic a wave of
    frequency [f <> 0] repeats when the grid is shifted by [100 / f]. *)
Theorem axis_unit_is_centisecond (A f : R) (p : bool) (G : list R) (phase : R) :
  f <> 0 ->
  wave_y A f p (map (fun t => t + 100 / f) G) phase = wave_y A f p G phase.
Proof.
  intros Hf. rewrite !wave_y_pointwise, map_map. apply map_ext. intros t.
  rewrite !exact_sample_at. f_equal.
  assert (Hq : f * (100 / f) = 100).
  { unfold Rdiv. rewrite (Rmult_comm 100), <- Rmult_assoc, Rinv_r by exact Hf. ring. }
  replace (2 * PI * (f * 0.01) * (t + 100 / f) + phase)
    with (2 * PI * (f * 0.01) * t + phase + 2 * PI * 0.01 * (f * (100 / f))) by ring.
  rewrite Hq.
  replace (2 * PI * 0.01 * 100) with (2 * PI) by lra.
  rewrite sin_plus, sin_2PI, cos_2PI. ring.
Qed.

(** X9. The arrow of the title points where the wave moves: in exact
    arithmetic frame [i + 1] shows at [t] what frame [i] shows at [t + d],
    [d = 0.17 / (2 pi * 0.01 * f)], and the arrow is the left one exactly
    when [d] is positive. *)
Theorem arrow_points_where_the_wave_moves (A f : R) (p : bool) (i : Z) (t : R) :
  f <> 0 ->
  spec_sample_at A f p (frame_phase (i + 1)) t
  = spec_sample_at A f p (frame_phase i) (t + 0.17 / (2 * PI * (f * 0.01))) /\
  direction (wave_title A f)
  = if Rlt_dec 0 (0.17 / (2 * PI * (f * 0.01)))
    then "longleftarrow"%string else "longrightarrow"%string.
Proof.
  intros Hf. pose proof PI_RGT_0 as Hpi.
  assert (Hang : 2 * PI * (f * 0.01) <> 0) by nra.
  split.
  - rewrite !exact_sample_at. f_equal. f_equal.
    change (frame_phase (i + 1)) with (0.17 * IZR (i + 1)).
    change (frame_phase i) with (0.17 * IZR i).
    rewrite plus_IZR, !Rmult_plus_distr_l.
    assert (Hd : 2 * PI * (f * 0.01) * (0.17 / (2 * PI * (f * 0.01))) = 0.17).
    { unfold Rdiv. rewrite (Rmult_comm 0.17), <- Rmult_assoc, Rinv_r by exact Hang. ring. }
    rewrite Hd. lra.
  - unfold wave_title, direction.
    change (less f (of_int 0)) with (if Rlt_dec f 0 then true else false).
    assert (Hsign : forall d, 0 < d -> 0 < 0.17 / d) by
      (intros d Hd; apply Rdiv_lt_0_compat; lra).
    destruct (Rlt_dec f 0) as [Hneg|Hpos]; destruct (Rlt_dec 0 _) as [Hd|Hd];
      try reflexivity; exfalso.
    + assert (Hopp : 0 < 0.17 / (- (2 * PI * (f * 0.01)))) by (apply Hsign; nra).
      unfold Rdiv in Hopp, Hd. rewrite Rinv_opp in Hopp. lra.
    + apply Hd, Hsign. nra.
Qed.

Lemma mirrored_at (A f : R) (p : bool) (ph t : R) :
  spec_sample_at A f p ph t + spec_sample_at A (- f) p ph t
  = 2 * A * (if p then -1 else 1) * sin ph * cos (2 * PI * (f * 0.01) * t).
Proof.
  rewrite !exact_sample_at.
  replace (2 * PI * (- f * 0.01) * t + ph) with (- (2 * PI * (f * 0.01) * t) + ph) by lra.
  rewrite !sin_plus, sin_neg, cos_neg. ring.
Qed.

(** X12. In exact arithmetic two waves of the same amplitude and polarity
    and of opposite frequencies add up to the standing wave
    [2 * A * sign * sin(phase) * cos(2 pi * 0.01 * f * t)], which is zero
    throughout frame 0. *)
Theorem mirrored_frequencies_stand (A f : R) (p : bool) (G : list R) (phase : R) :
  vadd (wave_y A f p G phase) (wave_y A (- f) p G phase)
  = Some (map (fun t => 2 * A * (if p then -1 else 1) * sin phase
                        * cos (2 * PI * (f * 0.01) * t)) G) /\
  vadd (wave_y A f p G (frame_phase 0)) (wave_y A (- f) p G (frame_phase 0))
  = Some (map (fun _ => 0) G).
Proof.
  assert (Hgen : forall ph,
    vadd (wave_y A f p G ph) (wave_y A (- f) p G ph)
    = Some (map (fun t => 2 * A * (if p then -1 else 1) * sin ph
                          * cos (2 * PI * (f * 0.01) * t)) G)).
  { intros ph. rewrite vadd_same_shape by now rewrite !wave_y_length.
    f_equal. rewrite !wave_y_pointwise.
    induction G as [|t G IH]; simpl; [reflexivity|]. f_equal; [|exact IH].
    apply mirrored_at. }
  split; [apply Hgen|]. rewrite Hgen. f_equal. apply map_ext. intros t.
  change (frame_phase 0) with (0.17 * 0). replace (0.17 * 0) with 0 by lra.
  rewrite sin_0. ring.
Qed.
End ExactMotion.

(** ** Witnesses *)

(** Witness of X2: the notebook's second call,
    [plot_wave_superposition(10, 180, 10, 180, True)], on the first two grid
    points in frame 1. *)
Lemma opposite_polarity_cancels_witness :
  Forall (fun v => is_finite v = true)
    (wave_y (arith := binary64 ref_sin) 10%float 180%float false
       [0x1.999999999999ap-5; 0x1.a1cac083126eap-5]%float
       (frame_phase (arith := binary64 ref_sin) 1)) /\
  exists st' st'' : Artists float,
    animate (arith := binary64 ref_sin) 10%float 180%float 10%float 180%float true false
      [0x1.999999999999ap-5; 0x1.a1cac083126eap-5]%float 1 initial_artists = Some st' /\
    ydata (rw st') = [0; 0]%float /\
    animate (arith := binary64 ref_sin) 10%float 180%float 10%float 180%float false true
      [0x1.999999999999ap-5; 0x1.a1cac083126eap-5]%float 1 initial_artists = Some st'' /\
    ydata (rw st'') = [0; 0]%float.
Proof.
  assert (Hfin : Forall (fun v => is_finite v = true)
            (wave_y (arith := binary64 ref_sin) 10%float 180%float false
               [0x1.999999999999ap-5; 0x1.a1cac083126eap-5]%float
               (frame_phase (arith := binary64 ref_sin) 1))).
  { vm_compute. repeat constructor. }
  split; [exact Hfin|].
  exact (@opposite_polarity_cancels ref_sin 10%float 180%float
           [0x1.999999999999ap-5; 0x1.a1cac083126eap-5]%float 1 initial_artists Hfin).
Defined.

(** Witness of X9: frequency 140. *)
Lemma arrow_points_where_the_wave_moves_witness :
  (140 <> 0)%R /\
  direction (wave_title (arith := exact) (cmp := exact_compare) 10%R 140%R)
  = if Rlt_dec 0 (0.17 / (2 * PI * (140 * 0.01)))%R
    then "longleftarrow"%string else "longrightarrow"%string.
Proof.
  assert (Hf : (140 <> 0)%R) by lra.
  split; [exact Hf|].
  exact (proj2 (@arrow_points_where_the_wave_moves 10%R 140%R false 0%Z 0.05%R Hf)).
Defined.

(** Witness of X11: frequency 140 on the first grid point. *)
Lemma axis_unit_is_centisecond_witness :
  (140 <> 0)%R /\
  wave_y (arith := exact) 10%R 140%R false (map (fun t => t + 100 / 140)%R [0.05%R]) 0%R
  = wave_y (arith := exact) 10%R 140%R false [0.05%R] 0%R.
Proof.
  assert (Hf : (140 <> 0)%R) by lra.
  split; [exact Hf|].
  exact (@axis_unit_is_centisecond 10%R 140%R false [0.05%R] 0%R Hf).
Defined.
